(** * Peer credentials of a local socket: [native/peer_cred.cc]

    A shallow embedding of the N-API entry points [GetPeerCred] and [Init]
    and of the parts of the node-addon-api and of the socket layer they
    touch, followed by the properties of the resolver.

    [GetPeerCred] is one straight-line body with a preprocessor branch per
    operating system.  The branch taken is a parameter of the model
    ([platform]); the kernel is a read-only oracle answering socket-option
    queries, and every query issued is appended to a trace so that "which
    system calls were made" is a statement about the final state.

    The record handed back is built with [Napi::Object::Set], which is a
    JavaScript assignment: it looks the key up on the object and along its
    prototype chain, runs a setter it finds there, and gives up silently on
    a read-only property or a non-extensible object.  The JavaScript realm
    the addon runs in ([Env]) is therefore a parameter too. *)

From Stdlib Require Import ZArith NArith List String Bool Lia.
From Stdlib Require Import Floats.SpecFloat.
Import ListNotations.

Local Open Scope string_scope.
Local Open Scope list_scope.
Local Open Scope Z_scope.

(** ** JavaScript values as seen through node-addon-api *)

Module Napi.

(** A JavaScript Number is an IEEE-754 double.  [spec_float] gives the sign,
    the mantissa and the binary exponent of a finite value and names the
    special values; a finite [S754_finite s m e] denotes (-1)^s * m * 2^e. *)
Definition double := spec_float.

(** A property of an object, as far as an assignment reads it: a data
    property has a value and may be read-only; an accessor property has a
    set function, named here by the function's name, or none. *)
Inductive Property (V : Type) : Type :=
| Data (value : V) (writable : bool)
| Accessor (setter : option string).

Arguments Data {V} value writable.
Arguments Accessor {V} setter.

(** An ordinary object: its own properties in creation order, whether new
    properties may be added, and the own properties of the objects on its
    prototype chain, nearest first. *)
Record Obj (V : Type) : Type := mk_Obj {
  own : list (string * Property V);
  extensible : bool;
  prototypes : list (list (string * Property V))
}.

Arguments mk_Obj {V} own extensible prototypes.
Arguments own {V} o.
Arguments extensible {V} o.
Arguments prototypes {V} o.

#[warnings="-register-all"]
Inductive JsValue : Type :=
| JsUndefined
| JsNull
| JsBoolean (b : bool)
| JsNumber (d : double)
| JsBigInt (z : Z)
| JsString (s : string)
| JsSymbol (description : string)
| JsFunction (name : string)
| JsObject (o : Obj JsValue).

Definition Object : Type := Obj JsValue.

Definition Properties : Type := list (string * Property JsValue).

(** The two exception classes the addon raises, with their message. *)
Inductive JsError : Type :=
| TypeError (message : string)
| Error (message : string).

(** What the JavaScript caller observes: the addon either returns a value or
    leaves an exception pending and returns [env.Null()], which the runtime
    discards in favour of the exception. *)
Inductive completion : Type :=
| Normal (v : JsValue)
| Throw (e : JsError).

(** [Napi::Env]: the realm the addon runs in.  Of the realm, an assignment
    to a fresh object can see the properties of [Object.prototype]; a
    setter it finds is JavaScript code, called with the receiver and the
    value, which may change the receiver and may throw. *)
Record Env : Type := mk_Env {
  Object_prototype : Properties;
  Call : string -> Object -> JsValue -> Object * option JsError
}.

(** A [Napi::Object] in the hands of the addon: the object, and with it the
    exception pending in its [Env], if any. *)
Definition Handle : Type := (Object * option JsError)%type.

(** [info.Length()] and [info[i]]: reading past the supplied arguments gives
    [undefined]. *)
Definition Length (info : list JsValue) : Z := Z.of_nat (List.length info).

Definition index (info : list JsValue) (i : nat) : JsValue :=
  nth i info JsUndefined.

(** [Napi::Value::IsNumber]: [napi_typeof] is [napi_number]. *)
Definition IsNumber (v : JsValue) : bool :=
  match v with
  | JsNumber _ => true
  | _ => false
  end.

(** Integer part of a double, rounding toward zero; the special values and
    the zeros have integer part 0.  Shifting by a negative amount shifts
    right, and the mantissa is positive, so the shift truncates. *)
Definition trunc (d : double) : Z :=
  match d with
  | S754_finite s m e =>
      let a := Z.shiftl (Z.pos m) e in
      if s then - a else a
  | _ => 0
  end.

(** Reduction modulo 2^32 into the signed 32-bit range. *)
Definition wrap_int32 (z : Z) : Z :=
  let r := z mod 2 ^ 32 in
  if 2 ^ 31 <=? r then r - 2 ^ 32 else r.

(** [napi_get_value_int32]: non-finite numbers give 0, finite ones are
    truncated toward zero and keep their bottom 32 bits. *)
Definition ToInt32 (d : double) : Z := wrap_int32 (trunc d).

(** [v.As<Napi::Number>().Int32Value()].  The call is only made on values
    for which [IsNumber] holds. *)
Definition Int32Value (v : JsValue) : Z :=
  match v with
  | JsNumber d => ToInt32 d
  | _ => 0
  end.

(** [static_cast<double>(x)] for a 32-bit integer [x]: every such value is
    exactly representable in a double, so the conversion is exact. *)
Definition double_of_Z (z : Z) : double :=
  match z with
  | Z0 => S754_zero false
  | Zpos m => S754_finite false m 0
  | Zneg m => S754_finite true m 0
  end.

Definition Number_New (d : double) : JsValue := JsNumber d.

(** [Napi::Function::New(env, callback)]: the function object that wraps a
    native callback.  A function value is identified by the callback it
    wraps, named as in the C++ source. *)
Definition Function_New (callback : string) : JsValue := JsFunction callback.

(** The own property of a table under a key. *)
Fixpoint GetOwnProperty (ps : Properties) (key : string)
  : option (Property JsValue) :=
  match ps with
  | [] => None
  | (k, d) :: ps' => if String.eqb k key then Some d else GetOwnProperty ps' key
  end.

(** The property an assignment finds: the first one under the key, looking
    at the object's own properties and then along the prototype chain. *)
Fixpoint FindProperty (tables : list Properties) (key : string)
  : option (Property JsValue) :=
  match tables with
  | [] => None
  | t :: ts =>
      match GetOwnProperty t key with
      | Some d => Some d
      | None => FindProperty ts key
      end
  end.

(** Give an existing own property a new value; position and attributes
    stay. *)
Fixpoint SetValue (ps : Properties) (key : string) (v : JsValue) : Properties :=
  match ps with
  | [] => []
  | (k, d) :: ps' =>
      if String.eqb k key then
        (k, match d with
            | Data _ w => Data v w
            | Accessor f => Accessor f
            end) :: ps'
      else (k, d) :: SetValue ps' key v
  end.

(** The assignment [o[key] = v] outside strict mode (OrdinarySet with the
    object as receiver).  A setter found is called.  A read-only property
    found, or an accessor without setter, ends the assignment without a
    store and without an exception.  Otherwise the value goes to the
    receiver's own property: an existing one is updated, a new one is
    created at the end if the receiver is extensible. *)
Definition OrdinarySet (env : Env) (o : Object) (key : string) (v : JsValue)
  : Handle :=
  match FindProperty (own o :: prototypes o) key with
  | Some (Accessor None) => (o, None)
  | Some (Accessor (Some f)) => Call env f o v
  | Some (Data _ false) => (o, None)
  | Some (Data _ true) | None =>
      match GetOwnProperty (own o) key with
      | Some (Accessor _) => (o, None)
      | Some (Data _ false) => (o, None)
      | Some (Data _ true) =>
          (mk_Obj (SetValue (own o) key v) (extensible o) (prototypes o), None)
      | None =>
          if extensible o then
            (mk_Obj (own o ++ [(key, Data v true)]) true (prototypes o), None)
          else (o, None)
      end
  end.

(** [Napi::Object::New(env)]: a fresh empty object whose prototype is
    [Object.prototype]. *)
Definition Object_New (env : Env) : Handle :=
  (mk_Obj [] true [Object_prototype env], None).

(** [Napi::Object::Set(key, value)]: [napi_set_named_property].  With an
    exception pending the call does nothing; otherwise it assigns, and an
    exception thrown by a setter is left pending.  Whether a store took
    place is not reported. *)
Definition Set_ (env : Env) (h : Handle) (key : string) (v : JsValue) : Handle :=
  match snd h with
  | Some _ => h
  | None => OrdinarySet env (fst h) key v
  end.

(** Handing an object back to JavaScript: a pending exception is thrown in
    place of the return value. *)
Definition Return (h : Handle) : completion :=
  match snd h with
  | Some e => Throw e
  | None => Normal (JsObject (fst h))
  end.

(** The keys of the own properties, in order. *)
Definition keys (o : Object) : list string := map fst (own o).

End Napi.

(** ** The socket layer *)

Module Socket.

(** [struct ucred] of Linux: [pid_t pid; uid_t uid; gid_t gid].  [pid_t] is
    a signed and [uid_t], [gid_t] are unsigned 32-bit integers. *)
Record ucred : Type := mk_ucred {
  pid : Z;
  uid : N;
  gid : N
}.

(** [struct xucred] of macOS: a version, the effective uid, the number of
    groups and the group array.  It carries no pid. *)
Record xucred : Type := mk_xucred {
  cr_version : N;
  cr_uid : N;
  cr_ngroups : Z;
  cr_groups : list N
}.

(** [cred.cr_groups[i]]. *)
Definition cr_groups_at (cred : xucred) (i : nat) : N :=
  nth i (cr_groups cred) 0%N.

Inductive level : Type := SOL_SOCKET | SOL_LOCAL.

Inductive optname : Type := SO_PEERCRED | LOCAL_PEERCRED | LOCAL_PEEREPID.

(** The type of the buffer each option fills. *)
Definition optval (o : optname) : Type :=
  match o with
  | SO_PEERCRED => ucred
  | LOCAL_PEERCRED => xucred
  | LOCAL_PEEREPID => Z
  end.

(** Some [errno] values (Linux numbering). *)
Definition EBADF : Z := 9.
Definition EINVAL : Z := 22.
Definition ENOTSOCK : Z := 88.
Definition ENOPROTOOPT : Z := 92.
Definition ENOTCONN : Z := 107.

(** The kernel-held state of the process's descriptors, as far as
    [getsockopt] can observe it: for a descriptor, a level and an option,
    either the error code of the failing call or the value written to the
    caller's buffer. *)
Definition kernel : Type := Z -> level -> forall o : optname, Z + optval o.

(** One socket-option query, as issued. *)
Record query : Type := mk_query {
  q_fd : Z;
  q_level : level;
  q_optname : optname
}.

(** The part of the world the addon runs against: the kernel, the thread's
    [errno], and the queries issued so far (oldest first). *)
Record state : Type := mk_state {
  kern : kernel;
  errno : Z;
  trace : list query
}.

Definition M (A : Type) : Type := state -> A * state.

Definition ret {A : Type} (a : A) : M A := fun s => (a, s).

Definition bind {A B : Type} (c : M A) (f : A -> M B) : M B :=
  fun s => let (a, s') := c s in f a s'.

(** [getsockopt(fd, level, optname, &buf, &len)]: a read-only query.  On
    failure the return value is negative ([inl]), [errno] is set and the
    buffer is left as it was; on success the buffer holds the answer
    ([inr]).  The kernel state itself is never changed. *)
Definition getsockopt (fd : Z) (lvl : level) (o : optname) : M (Z + optval o) :=
  fun s =>
    let s' := mk_state (kern s) (errno s) (trace s ++ [mk_query fd lvl o]) in
    match kern s fd lvl o with
    | inl e => (inl e, mk_state (kern s') e (trace s'))
    | inr v => (inr v, s')
    end.

End Socket.

Import Napi Socket.

Notation "x <- c ;; k" := (bind c (fun x => k))
  (at level 61, c at next level, right associativity).

(** ** [GetPeerCred] *)

(** The preprocessor branch compiled in: [__linux__], [__APPLE__], or
    neither. *)
Inductive platform : Type := Linux | Apple | Other.

(** [env] is [info.Env()]; [info] holds the arguments of the call. *)
Definition GetPeerCred (env : Env) (p : platform) (info : list JsValue)
  : M completion :=
  if (Length info <? 1) || negb (IsNumber (index info 0)) then
    ret (Throw (TypeError "Expected fd as number"))
  else
    let fd := Int32Value (index info 0) in
    match p with
    | Linux =>
        r <- getsockopt fd SOL_SOCKET SO_PEERCRED ;;
        match r with
        | inl _ => ret (Throw (Error "getsockopt(SO_PEERCRED) failed"))
        | inr cred =>
            let result := Object_New env in
            let result := Set_ env result "pid" (Number_New (double_of_Z (pid cred))) in
            let result := Set_ env result "uid"
                            (Number_New (double_of_Z (Z.of_N (uid cred)))) in
            let result := Set_ env result "gid"
                            (Number_New (double_of_Z (Z.of_N (gid cred)))) in
            ret (Return result)
        end
    | Apple =>
        r <- getsockopt fd SOL_LOCAL LOCAL_PEERCRED ;;
        match r with
        | inl _ => ret (Throw (Error "getsockopt(LOCAL_PEERCRED) failed"))
        | inr cred =>
            let pid := 0 in
            r' <- getsockopt fd SOL_LOCAL LOCAL_PEEREPID ;;
            let pid := match r' with inl _ => pid | inr v => v end in
            let result := Object_New env in
            let result := Set_ env result "pid" (Number_New (double_of_Z pid)) in
            let result := Set_ env result "uid"
                            (Number_New (double_of_Z (Z.of_N (cr_uid cred)))) in
            let result := Set_ env result "gid"
                            (Number_New (double_of_Z (Z.of_N (cr_groups_at cred 0)))) in
            ret (Return result)
        end
    | Other => ret (Throw (Error "Unsupported platform"))
    end.

(** ** Module registration *)

(** [Init]: store the wrapped [GetPeerCred] under the key getPeerCred of the
    exports object it is handed, and hand that object back. *)
Definition Init (env : Env) (exports : Handle) : Handle :=
  let exports := Set_ env exports "getPeerCred" (Function_New "GetPeerCred") in
  exports.

(** [NODE_API_MODULE(peer_cred, Init)]: loading the addon runs [Init] on a
    fresh exports object. *)
Definition peer_cred (env : Env) : Handle := Init env (Object_New env).

(** ** Vocabulary of the specification *)

(** The three failure kinds, read off the exception the addon raises: the
    [TypeError] of the argument check, the plain [Error] of a failed
    mandatory query, and the plain [Error] of the fallback branch. *)
Inductive Failure : Type := InvalidInput | QueryFailed | UnsupportedPlatform.

Definition failure_kind (e : JsError) : option Failure :=
  match e with
  | TypeError m =>
      if String.eqb m "Expected fd as number" then Some InvalidInput else None
  | Error m =>
      if String.eqb m "getsockopt(SO_PEERCRED) failed" then Some QueryFailed
      else if String.eqb m "getsockopt(LOCAL_PEERCRED) failed" then Some QueryFailed
      else if String.eqb m "Unsupported platform" then Some UnsupportedPlatform
      else None
  end.

(** The query whose failure is fatal on each platform. *)
Definition mandatory_query (p : platform) : option (level * optname) :=
  match p with
  | Linux => Some (SOL_SOCKET, SO_PEERCRED)
  | Apple => Some (SOL_LOCAL, LOCAL_PEERCRED)
  | Other => None
  end.

(** The double [d] is exactly the integer [z]: as a real number,
    (-1)^s * m * 2^e = z. *)
Definition represents (d : double) (z : Z) : Prop :=
  match d with
  | S754_zero _ => z = 0
  | S754_finite s m e =>
      (if s then - Z.pos m else Z.pos m) * 2 ^ Z.max 0 e = z * 2 ^ Z.max 0 (- e)
  | _ => False
  end.

(** The integer [t] is the double [d] with its fraction dropped: [t] has
    the sign of [d] and |t| <= |d| < |t| + 1; a double that is not finite
    has integer part 0. *)
Definition integer_part (d : double) (t : Z) : Prop :=
  match d with
  | S754_finite s m e =>
      (if s then t <= 0 else 0 <= t) /\
      Z.abs t * 2 ^ Z.max 0 (- e) <= Z.pos m * 2 ^ Z.max 0 e
      < (Z.abs t + 1) * 2 ^ Z.max 0 (- e)
  | _ => t = 0
  end.

(** The success record: an extensible object below [Object.prototype] whose
    own properties are pid, uid and gid, in this order, each an ordinary
    data property holding a Number. *)
Definition record_of (env : Env) (dp du dg : double) : JsValue :=
  JsObject (mk_Obj [("pid", Data (JsNumber dp) true);
                    ("uid", Data (JsNumber du) true);
                    ("gid", Data (JsNumber dg) true)]
                   true [Object_prototype env]).

Definition record (env : Env) (pid_ uid_ gid_ : Z) : JsValue :=
  record_of env (double_of_Z pid_) (double_of_Z uid_) (double_of_Z gid_).

(** What the three stores of a branch hand back. *)
Definition result_of (env : Env) (vp vu vg : JsValue) : completion :=
  Return (Set_ env (Set_ env (Set_ env (Object_New env) "pid" vp) "uid" vu) "gid" vg).

(** [Object.prototype] gets in the way of an assignment to [key] on a fresh
    object when it has a setter, an accessor without setter or a read-only
    property under that key. *)
Definition intercepts (env : Env) (key : string) : bool :=
  match GetOwnProperty (Object_prototype env) key with
  | None | Some (Data _ true) => false
  | Some (Data _ false) | Some (Accessor _) => true
  end.

(** A realm whose [Object.prototype] leaves the three keys of the record
    alone. *)
Definition plain_realm (env : Env) : Prop :=
  intercepts env "pid" = false /\
  intercepts env "uid" = false /\
  intercepts env "gid" = false.

(** Two states hold the same connection behind [fd] when every query on
    [fd] is answered alike. *)
Definition same_connection (fd : Z) (s s' : state) : Prop :=
  forall lvl o, kern s' fd lvl o = kern s fd lvl o.

(** "The failure raised for a failed mandatory query carries the OS error":
    the error code can be read back from the exception. *)
Definition carries_os_error (p : platform) : Prop :=
  exists extract : JsError -> Z,
    forall env d rest s lvl o e,
      mandatory_query p = Some (lvl, o) ->
      kern s (ToInt32 d) lvl o = inl e ->
      exists err,
        fst (GetPeerCred env p (JsNumber d :: rest) s) = Throw err /\
        extract err = e.

(** The option a platform branch may ask for. *)
Definition may_query (p : platform) (q : query) : Prop :=
  match p with
  | Linux => q_level q = SOL_SOCKET /\ q_optname q = SO_PEERCRED
  | Apple => q_level q = SOL_LOCAL /\
             (q_optname q = LOCAL_PEERCRED \/ q_optname q = LOCAL_PEEREPID)
  | Other => False
  end.

Definition max_queries (p : platform) : nat :=
  match p with
  | Linux => 1
  | Apple => 2
  | Other => 0
  end.

(** ** Sample inputs *)

(** The double nearest to 3.7: 8331659310635418 * 2^-51. *)
Definition double_3_7 : double := S754_finite false 8331659310635418 (-51).

(** A kernel on which every query fails with [e]. *)
Definition failing_kernel (e : Z) : kernel := fun _ _ _ => inl e.

(** A Linux kernel with one connected local socket [fd0] whose peer is
    [c]; every other descriptor is closed. *)
Definition linux_kernel (fd0 : Z) (c : ucred) : kernel :=
  fun fd lvl o =>
    if fd =? fd0 then
      match lvl, o return Z + optval o with
      | SOL_SOCKET, SO_PEERCRED => inr c
      | _, _ => inl ENOPROTOOPT
      end
    else inl EBADF.

(** A macOS kernel with one connected local socket [fd0] whose peer is [c];
    the pid query answers [epid], or fails where it is not supported. *)
Definition apple_kernel (fd0 : Z) (c : xucred) (epid : option Z) : kernel :=
  fun fd lvl o =>
    if fd =? fd0 then
      match lvl, o return Z + optval o with
      | SOL_LOCAL, LOCAL_PEERCRED => inr c
      | SOL_LOCAL, LOCAL_PEEREPID =>
          match epid with Some v => inr v | None => inl ENOPROTOOPT end
      | _, _ => inl ENOPROTOOPT
      end
    else inl EBADF.

Definition boot (k : kernel) : state := mk_state k 0 [].

Definition peer_4242 : ucred := mk_ucred 4242 1000 1000.

Definition xpeer_501 : xucred := mk_xucred 0 501 3 [20; 12; 61]%N.

(** Two setters: one named swallow that returns without storing anything,
    one named refuse that throws. *)
Definition sample_setters (f : string) (this : Object) (v : JsValue)
  : Object * option JsError :=
  if String.eqb f "refuse" then (this, Some (TypeError "read-only record"))
  else (this, None).

(** A realm as Node.js starts it, as far as [Object.prototype] goes: a few
    of its methods, none under the keys of the record. *)
Definition node_realm : Env :=
  mk_Env [("constructor", Data (JsFunction "Object") true);
          ("hasOwnProperty", Data (JsFunction "hasOwnProperty") true);
          ("toString", Data (JsFunction "toString") true)]
         sample_setters.

(** The same realm after
    [Object.defineProperty(Object.prototype, key, { set(v) {} })]. *)
Definition polluted_realm (key : string) : Env :=
  mk_Env (Object_prototype node_realm ++ [(key, Accessor (Some "swallow"))])
         sample_setters.

(** The same realm after
    [Object.defineProperty(Object.prototype, key, { set(v) { throw ... } })]. *)
Definition refusing_realm (key : string) : Env :=
  mk_Env (Object_prototype node_realm ++ [(key, Accessor (Some "refuse"))])
         sample_setters.

(** An exports object whose getPeerCred is a read-only property holding
    [null]. *)
Definition locked_exports : Object :=
  mk_Obj [("version", Data (JsString "1") true);
          ("getPeerCred", Data JsNull false)]
         true [Object_prototype node_realm].

Definition plain_exports : Object :=
  mk_Obj [("version", Data (JsString "1") true)]
         true [Object_prototype node_realm].

(** * Properties *)

(** ** Arithmetic of the descriptor coercion *)

Lemma wrap_int32_range (z : Z) : - 2 ^ 31 <= wrap_int32 z < 2 ^ 31.
Proof.
  unfold wrap_int32.
  pose proof (Z.mod_pos_bound z (2 ^ 32) ltac:(lia)) as Hr.
  destruct (2 ^ 31 <=? z mod 2 ^ 32) eqn:E.
  - apply Z.leb_le in E. lia.
  - apply Z.leb_gt in E. lia.
Qed.

Lemma wrap_int32_congruent (z : Z) : exists k, wrap_int32 z = z + k * 2 ^ 32.
Proof.
  unfold wrap_int32.
  pose proof (Z.div_mod z (2 ^ 32) ltac:(lia)) as Hz.
  destruct (2 ^ 31 <=? z mod 2 ^ 32).
  - exists (- (z / 2 ^ 32) - 1). lia.
  - exists (- (z / 2 ^ 32)). lia.
Qed.

Lemma wrap_int32_small (z : Z) : - 2 ^ 31 <= z < 2 ^ 31 -> wrap_int32 z = z.
Proof.
  intros Hz. unfold wrap_int32.
  destruct (Z_lt_le_dec z 0) as [Hneg | Hpos].
  - replace (z mod 2 ^ 32) with (z + 2 ^ 32).
    + destruct (2 ^ 31 <=? z + 2 ^ 32) eqn:E.
      * lia.
      * apply Z.leb_gt in E. lia.
    + apply Z.mod_unique with (q := -1); lia.
  - rewrite Z.mod_small by lia.
    destruct (2 ^ 31 <=? z) eqn:E.
    + apply Z.leb_le in E. lia.
    + reflexivity.
Qed.

Lemma trunc_double_of_Z (z : Z) : trunc (double_of_Z z) = z.
Proof. destruct z; reflexivity. Qed.

(** The cast of an integer to double is that integer. *)
Lemma represents_double_of_Z (z : Z) : represents (double_of_Z z) z.
Proof. destruct z; cbn; lia. Qed.

(** [trunc] drops the fraction. *)
Lemma integer_part_trunc (d : double) : integer_part d (trunc d).
Proof.
  destruct d as [s | s | | s m e]; try reflexivity.
  unfold integer_part, trunc. cbv zeta.
  assert (Ha : 0 <= Z.shiftl (Z.pos m) e) by (apply Z.shiftl_nonneg; lia).
  assert (Habs : Z.abs (if s then - Z.shiftl (Z.pos m) e else Z.shiftl (Z.pos m) e)
                 = Z.shiftl (Z.pos m) e) by (destruct s; lia).
  rewrite Habs. split; [destruct s; lia |].
  destruct (Z_lt_le_dec e 0) as [Hneg | Hpos].
  - rewrite Z.shiftl_div_pow2 by lia.
    rewrite (Z.max_r 0 (- e)) by lia. rewrite (Z.max_l 0 e) by lia.
    assert (Hp : 0 < 2 ^ (- e)) by (apply Z.pow_pos_nonneg; lia).
    pose proof (Z.mul_div_le (Z.pos m) (2 ^ (- e)) Hp).
    pose proof (Z.mul_succ_div_gt (Z.pos m) (2 ^ (- e)) Hp).
    lia.
  - rewrite Z.shiftl_mul_pow2 by lia.
    rewrite (Z.max_l 0 (- e)) by lia. rewrite (Z.max_r 0 e) by lia.
    lia.
Qed.

(** A 32-bit integer handed to JavaScript as a Number and read back with
    [Int32Value] is the integer itself: the cast to double loses nothing. *)
Lemma Int32Value_double_of_Z (z : Z) :
  - 2 ^ 31 <= z < 2 ^ 31 -> Int32Value (Number_New (double_of_Z z)) = z.
Proof.
  intros Hz. unfold Number_New, Int32Value, ToInt32.
  rewrite trunc_double_of_Z. now apply wrap_int32_small.
Qed.

Example ToInt32_3_7 : ToInt32 double_3_7 = 3.
Proof. reflexivity. Qed.

Example ToInt32_minus_3_7 :
  ToInt32 (S754_finite true 8331659310635418 (-51)) = -3.
Proof. reflexivity. Qed.

Example ToInt32_nan : ToInt32 S754_nan = 0.
Proof. reflexivity. Qed.

Example ToInt32_infinity : ToInt32 (S754_infinity false) = 0.
Proof. reflexivity. Qed.

Example ToInt32_two_pow_32_plus_5 : ToInt32 (double_of_Z (2 ^ 32 + 5)) = 5.
Proof. reflexivity. Qed.

Example ToInt32_two_pow_31 : ToInt32 (double_of_Z (2 ^ 31)) = - 2 ^ 31.
Proof. reflexivity. Qed.

(** ** Assignments *)

(** On an extensible object directly below [Object.prototype] that lacks
    the key, an assignment the prototype does not intercept creates the
    property at the end. *)
Lemma Set_creates (env : Env) (o : Object) (key : string) (v : JsValue) :
  prototypes o = [Object_prototype env] ->
  GetOwnProperty (own o) key = None ->
  extensible o = true ->
  intercepts env key = false ->
  Set_ env (o, None) key v =
  (mk_Obj (own o ++ [(key, Data v true)]) true [Object_prototype env], None).
Proof.
  intros Hproto Hown Hext Hfree.
  unfold Set_. cbn [fst snd]. unfold OrdinarySet.
  rewrite Hproto. cbn [FindProperty]. rewrite Hown.
  unfold intercepts in Hfree.
  destruct (GetOwnProperty (Object_prototype env) key) as [[w [|] | f] |];
    try discriminate; rewrite Hext; reflexivity.
Qed.

(** In a plain realm the three stores build the full record. *)
Lemma result_of_plain (env : Env) (dp du dg : double) :
  plain_realm env ->
  result_of env (JsNumber dp) (JsNumber du) (JsNumber dg) =
  Normal (record_of env dp du dg).
Proof.
  intros (Hpid & Huid & Hgid). unfold result_of, Object_New.
  rewrite Set_creates by (try reflexivity; assumption). cbn [own app].
  rewrite Set_creates by (try reflexivity; assumption). cbn [own app].
  rewrite Set_creates by (try reflexivity; assumption). reflexivity.
Qed.

Lemma Get_SetValue_other (ps : Properties) (k k' : string) (v : JsValue) :
  k' <> k -> GetOwnProperty (SetValue ps k v) k' = GetOwnProperty ps k'.
Proof.
  intros Hne. induction ps as [| [k0 d] ps IH]; cbn [SetValue GetOwnProperty].
  - reflexivity.
  - destruct (String.eqb k0 k) eqn:E; cbn [GetOwnProperty].
    + apply String.eqb_eq in E. subst k0.
      assert (E' : String.eqb k k' = false) by (apply String.eqb_neq; congruence).
      now rewrite E'.
    + now rewrite IH.
Qed.

Lemma Get_SetValue_same (ps : Properties) (k : string) (v w : JsValue) (b : bool) :
  GetOwnProperty ps k = Some (Data w b) ->
  GetOwnProperty (SetValue ps k v) k = Some (Data v b).
Proof.
  induction ps as [| [k0 d] ps IH]; cbn [SetValue GetOwnProperty].
  - discriminate.
  - destruct (String.eqb k0 k) eqn:E; cbn [GetOwnProperty]; rewrite E.
    + intros [= ->]. reflexivity.
    + exact IH.
Qed.

Lemma keys_SetValue (ps : Properties) (k : string) (v : JsValue) :
  map fst (SetValue ps k v) = map fst ps.
Proof.
  induction ps as [| [k0 d] ps IH]; cbn [SetValue map fst].
  - reflexivity.
  - destruct (String.eqb k0 k); cbn [map fst]; [reflexivity | now rewrite IH].
Qed.

Lemma Get_app_new (ps : Properties) (k k' : string) (d : Property JsValue) :
  GetOwnProperty ps k = None ->
  GetOwnProperty (ps ++ [(k, d)]) k' =
  if String.eqb k k' then Some d else GetOwnProperty ps k'.
Proof.
  induction ps as [| [k0 d0] ps IH]; cbn [app GetOwnProperty].
  - reflexivity.
  - destruct (String.eqb k0 k) eqn:E; [discriminate |]. intros Hnone.
    destruct (String.eqb k0 k') eqn:E'.
    + apply String.eqb_eq in E'. subst k'. now rewrite String.eqb_sym, E.
    + now apply IH.
Qed.

(** ** Unfolding [GetPeerCred] *)

Lemma Length_cons (v : JsValue) (info : list JsValue) :
  (Length (v :: info) <? 1) = false.
Proof. unfold Length. apply Z.ltb_ge. cbn [List.length]. lia. Qed.

(** The argument check, in words: it rejects exactly the calls with no
    argument or with a first argument that is not a Number. *)
Lemma guard_spec (info : list JsValue) :
  (Length info <? 1) || negb (IsNumber (index info 0)) = true <->
  info = [] \/ IsNumber (index info 0) = false.
Proof.
  destruct info as [| v rest].
  - cbn. tauto.
  - rewrite Length_cons. cbn [orb index nth].
    rewrite negb_true_iff. split; [tauto | intros [H | H]; [discriminate | exact H]].
Qed.

Lemma guard_number (d : double) (rest : list JsValue) :
  (Length (JsNumber d :: rest) <? 1)
  || negb (IsNumber (index (JsNumber d :: rest) 0)) = false.
Proof. rewrite Length_cons. reflexivity. Qed.

Lemma GetPeerCred_rejected
    (env : Env) (p : platform) (info : list JsValue) (s : state) :
  info = [] \/ IsNumber (index info 0) = false ->
  GetPeerCred env p info s = (Throw (TypeError "Expected fd as number"), s).
Proof.
  intros H. apply guard_spec in H. unfold GetPeerCred. rewrite H. reflexivity.
Qed.

Lemma GetPeerCred_Linux (env : Env) (d : double) (rest : list JsValue) (s : state) :
  GetPeerCred env Linux (JsNumber d :: rest) s =
  let q := mk_query (ToInt32 d) SOL_SOCKET SO_PEERCRED in
  match kern s (ToInt32 d) SOL_SOCKET SO_PEERCRED with
  | inl e => (Throw (Error "getsockopt(SO_PEERCRED) failed"),
              mk_state (kern s) e (trace s ++ [q]))
  | inr cred => (result_of env (JsNumber (double_of_Z (pid cred)))
                   (JsNumber (double_of_Z (Z.of_N (uid cred))))
                   (JsNumber (double_of_Z (Z.of_N (gid cred)))),
                 mk_state (kern s) (errno s) (trace s ++ [q]))
  end.
Proof.
  unfold GetPeerCred. rewrite guard_number.
  cbn [index nth Int32Value]. unfold bind, getsockopt. cbn [kern errno trace].
  destruct (kern s (ToInt32 d) SOL_SOCKET SO_PEERCRED); reflexivity.
Qed.

Lemma GetPeerCred_Apple (env : Env) (d : double) (rest : list JsValue) (s : state) :
  GetPeerCred env Apple (JsNumber d :: rest) s =
  let fd := ToInt32 d in
  let q := mk_query fd SOL_LOCAL LOCAL_PEERCRED in
  let q' := mk_query fd SOL_LOCAL LOCAL_PEEREPID in
  match kern s fd SOL_LOCAL LOCAL_PEERCRED with
  | inl e => (Throw (Error "getsockopt(LOCAL_PEERCRED) failed"),
              mk_state (kern s) e (trace s ++ [q]))
  | inr cred =>
      match kern s fd SOL_LOCAL LOCAL_PEEREPID with
      | inl e =>
          (result_of env (JsNumber (double_of_Z 0))
             (JsNumber (double_of_Z (Z.of_N (cr_uid cred))))
             (JsNumber (double_of_Z (Z.of_N (cr_groups_at cred 0)))),
           mk_state (kern s) e ((trace s ++ [q]) ++ [q']))
      | inr v =>
          (result_of env (JsNumber (double_of_Z v))
             (JsNumber (double_of_Z (Z.of_N (cr_uid cred))))
             (JsNumber (double_of_Z (Z.of_N (cr_groups_at cred 0)))),
           mk_state (kern s) (errno s) ((trace s ++ [q]) ++ [q']))
      end
  end.
Proof.
  unfold GetPeerCred. rewrite guard_number.
  cbn [index nth Int32Value]. unfold bind, getsockopt. cbn [kern errno trace].
  destruct (kern s (ToInt32 d) SOL_LOCAL LOCAL_PEERCRED); [reflexivity |].
  cbn [kern errno trace].
  destruct (kern s (ToInt32 d) SOL_LOCAL LOCAL_PEEREPID); reflexivity.
Qed.

Lemma GetPeerCred_Other (env : Env) (d : double) (rest : list JsValue) (s : state) :
  GetPeerCred env Other (JsNumber d :: rest) s =
  (Throw (Error "Unsupported platform"), s).
Proof. unfold GetPeerCred. rewrite guard_number. reflexivity. Qed.

(** A first argument that passes the check is a Number. *)
Lemma accepted_number (info : list JsValue) :
  (Length info <? 1) || negb (IsNumber (index info 0)) = false ->
  exists d rest, info = JsNumber d :: rest.
Proof.
  destruct info as [| v rest]; [discriminate |].
  rewrite Length_cons. cbn [orb index nth].
  destruct v; try discriminate. intros _. eauto.
Qed.

Lemma info_cases (info : list JsValue) :
  (info = [] \/ IsNumber (index info 0) = false) \/
  exists d rest, info = JsNumber d :: rest.
Proof.
  destruct ((Length info <? 1) || negb (IsNumber (index info 0))) eqn:E.
  - left. now apply guard_spec.
  - right. now apply accepted_number.
Qed.

(** The queries only read: the kernel is the same after a call. *)
Lemma GetPeerCred_kern (env : Env) (p : platform) (info : list JsValue) (s : state) :
  kern (snd (GetPeerCred env p info s)) = kern s.
Proof.
  destruct (info_cases info) as [H | (d & rest & ->)].
  - now rewrite GetPeerCred_rejected.
  - destruct p.
    + rewrite GetPeerCred_Linux. cbv zeta.
      destruct (kern s (ToInt32 d) SOL_SOCKET SO_PEERCRED); reflexivity.
    + rewrite GetPeerCred_Apple. cbv zeta.
      destruct (kern s (ToInt32 d) SOL_LOCAL LOCAL_PEERCRED); [reflexivity |].
      destruct (kern s (ToInt32 d) SOL_LOCAL LOCAL_PEEREPID); reflexivity.
    + now rewrite GetPeerCred_Other.
Qed.

Lemma app_cons_not_self {A : Type} (l r : list A) (x : A) : l ++ x :: r <> l.
Proof.
  intros H. apply (f_equal (@List.length A)) in H.
  rewrite length_app in H. cbn [List.length] in H. lia.
Qed.

(** ** The split-credential branch: a failed pid query *)

(** C1, as claimed, does not hold in every realm.  After
    [Object.defineProperty(Object.prototype, "pid", { set(v) {} })] the
    store of pid runs that setter and the object handed back has no pid at
    all, where the claim has a pid of zero. *)
Lemma pid_default_lost_when_store_intercepted :
  fst (GetPeerCred (polluted_realm "pid") Apple [JsNumber (double_of_Z 7)]
         (boot (apple_kernel 7 xpeer_501 None))) =
  Normal (JsObject (mk_Obj [("uid", Data (JsNumber (double_of_Z 501)) true);
                            ("gid", Data (JsNumber (double_of_Z 20)) true)]
                           true [Object_prototype (polluted_realm "pid")])).
Proof. reflexivity. Qed.

(** C1, amended.  On the split-credential platform, in a realm whose
    [Object.prototype] does not intercept the stores of pid, uid and gid,
    when the mandatory [LOCAL_PEERCRED] query succeeds and the second
    query, for the peer's effective pid, fails, the call does not fail: it
    returns the record whose pid is zero and whose uid and gid are the
    [cr_uid] and the [cr_groups[0]] of the structure the first query
    filled. *)
Theorem pid_query_failure_is_not_fatal
    (env : Env) (d : double) (rest : list JsValue) (s : state)
    (cred : xucred) (e : Z) :
  plain_realm env ->
  kern s (ToInt32 d) SOL_LOCAL LOCAL_PEERCRED = inr cred ->
  kern s (ToInt32 d) SOL_LOCAL LOCAL_PEEREPID = inl e ->
  exists dp du dg,
    fst (GetPeerCred env Apple (JsNumber d :: rest) s) =
    Normal (record_of env dp du dg) /\
    represents dp 0 /\
    represents du (Z.of_N (cr_uid cred)) /\
    represents dg (Z.of_N (cr_groups_at cred 0)).
Proof.
  intros Hplain Hcred Hpid. rewrite GetPeerCred_Apple. cbv zeta.
  rewrite Hcred, Hpid. cbn [fst]. rewrite (result_of_plain env _ _ _ Hplain).
  do 3 eexists. split; [reflexivity |].
  repeat split; apply represents_double_of_Z.
Qed.

Lemma pid_query_failure_is_not_fatal_witness :
  exists dp du dg,
    fst (GetPeerCred node_realm Apple [JsNumber (double_of_Z 7)]
           (boot (apple_kernel 7 xpeer_501 None))) =
    Normal (record_of node_realm dp du dg) /\
    represents dp 0 /\ represents du 501 /\ represents dg 20.
Proof.
  exact (pid_query_failure_is_not_fatal node_realm (double_of_Z 7) []
           (boot (apple_kernel 7 xpeer_501 None)) xpeer_501 ENOPROTOOPT
           (conj eq_refl (conj eq_refl eq_refl)) eq_refl eq_refl).
Defined.

(** ** The combined-credential branch *)

(** C2, as claimed, does not hold in every realm.  After
    [Object.defineProperty(Object.prototype, "pid", { set(v) {} })] a
    successful query gives an object with uid and gid and no pid. *)
Lemma linux_record_misses_intercepted_pid :
  exists o,
    fst (GetPeerCred (polluted_realm "pid") Linux [JsNumber (double_of_Z 5)]
           (boot (linux_kernel 5 peer_4242))) = Normal (JsObject o) /\
    GetOwnProperty (own o) "pid" = None /\
    GetOwnProperty (own o) "uid" = Some (Data (JsNumber (double_of_Z 1000)) true) /\
    GetOwnProperty (own o) "gid" = Some (Data (JsNumber (double_of_Z 1000)) true).
Proof. eexists. repeat split. Qed.

(** C2, amended.  On the combined-credential platform a call with a
    descriptor issues exactly one query, [SO_PEERCRED] at [SOL_SOCKET] on
    that descriptor.  If the kernel answers with an error the call fails
    with [QueryFailed] and returns no record.  If it answers with a
    credential structure then, in a realm whose [Object.prototype] does not
    intercept the stores of pid, uid and gid, the record holds exactly that
    structure's pid, uid and gid. *)
Theorem linux_single_query
    (env : Env) (d : double) (rest : list JsValue) (s : state) :
  let fd := ToInt32 d in
  let out := GetPeerCred env Linux (JsNumber d :: rest) s in
  trace (snd out) = trace s ++ [mk_query fd SOL_SOCKET SO_PEERCRED] /\
  match kern s fd SOL_SOCKET SO_PEERCRED with
  | inl _ =>
      fst out = Throw (Error "getsockopt(SO_PEERCRED) failed") /\
      failure_kind (Error "getsockopt(SO_PEERCRED) failed") = Some QueryFailed
  | inr cred =>
      plain_realm env ->
      exists dp du dg,
        fst out = Normal (record_of env dp du dg) /\
        represents dp (pid cred) /\
        represents du (Z.of_N (uid cred)) /\
        represents dg (Z.of_N (gid cred))
  end.
Proof.
  cbv zeta. rewrite GetPeerCred_Linux. cbv zeta.
  destruct (kern s (ToInt32 d) SOL_SOCKET SO_PEERCRED) as [e | cred];
    cbn [fst snd trace]; split; try reflexivity.
  - split; reflexivity.
  - intros Hplain. rewrite (result_of_plain env _ _ _ Hplain).
    do 3 eexists. split; [reflexivity |].
    repeat split; apply represents_double_of_Z.
Qed.

Lemma linux_single_query_witness :
  trace (snd (GetPeerCred node_realm Linux [JsNumber (double_of_Z 5)]
                (boot (linux_kernel 5 peer_4242)))) =
  [mk_query 5 SOL_SOCKET SO_PEERCRED] /\
  exists dp du dg,
    fst (GetPeerCred node_realm Linux [JsNumber (double_of_Z 5)]
           (boot (linux_kernel 5 peer_4242))) =
    Normal (record_of node_realm dp du dg) /\
    represents dp 4242 /\ represents du 1000 /\ represents dg 1000.
Proof.
  destruct (linux_single_query node_realm (double_of_Z 5) []
              (boot (linux_kernel 5 peer_4242))) as [Htrace Hrecord].
  split; [exact Htrace |].
  exact (Hrecord (conj eq_refl (conj eq_refl eq_refl))).
Defined.

Example linux_scenario :
  GetPeerCred node_realm Linux [JsNumber (double_of_Z 5)]
    (boot (linux_kernel 5 peer_4242)) =
  (Normal (record node_realm 4242 1000 1000),
   mk_state (linux_kernel 5 peer_4242) 0 [mk_query 5 SOL_SOCKET SO_PEERCRED]).
Proof. reflexivity. Qed.

(** ** What a failed mandatory query reports *)

(** C3, as claimed, does not hold: a descriptor that is closed ([EBADF]) and
    one that is not a socket ([ENOTSOCK]) raise the very same exception, so
    no reading of the exception gives the error code back. *)
Lemma query_failed_drops_os_error :
  let info := [JsNumber (double_of_Z 3)] in
  let closed := GetPeerCred node_realm Linux info (boot (failing_kernel EBADF)) in
  let not_socket :=
    GetPeerCred node_realm Linux info (boot (failing_kernel ENOTSOCK)) in
  fst closed = fst not_socket /\
  errno (snd closed) = EBADF /\
  errno (snd not_socket) = ENOTSOCK /\
  ~ carries_os_error Linux.
Proof.
  cbv zeta. repeat split.
  intros [extract H].
  destruct (H node_realm (double_of_Z 3) [] (boot (failing_kernel EBADF))
              SOL_SOCKET SO_PEERCRED EBADF eq_refl eq_refl) as (e1 & H1 & E1).
  destruct (H node_realm (double_of_Z 3) [] (boot (failing_kernel ENOTSOCK))
              SOL_SOCKET SO_PEERCRED ENOTSOCK eq_refl eq_refl) as (e2 & H2 & E2).
  cbn in H1, H2. injection H1 as <-. injection H2 as <-.
  rewrite E1 in E2. discriminate.
Qed.

(** C3, amended.  When the mandatory query fails, whatever the error code,
    the exception raised is of kind [QueryFailed] and carries nothing but a
    fixed message naming the failed query: getsockopt(SO_PEERCRED) failed
    on the combined-credential platform, getsockopt(LOCAL_PEERCRED) failed
    on the split-credential one. *)
Theorem query_failed_message_is_fixed
    (env : Env) (p : platform) (d : double) (rest : list JsValue)
    (s : state) (lvl : level) (o : optname) (e : Z) :
  mandatory_query p = Some (lvl, o) ->
  kern s (ToInt32 d) lvl o = inl e ->
  exists msg,
    fst (GetPeerCred env p (JsNumber d :: rest) s) = Throw (Error msg) /\
    failure_kind (Error msg) = Some QueryFailed /\
    (p = Linux -> msg = "getsockopt(SO_PEERCRED) failed") /\
    (p = Apple -> msg = "getsockopt(LOCAL_PEERCRED) failed").
Proof.
  destruct p; intros Hq; inversion Hq; subst; clear Hq; intros He.
  - rewrite GetPeerCred_Linux. cbv zeta. rewrite He.
    eexists. repeat split. discriminate.
  - rewrite GetPeerCred_Apple. cbv zeta. rewrite He.
    eexists. repeat split. discriminate.
Qed.

Lemma query_failed_message_is_fixed_witness :
  (exists msg,
      fst (GetPeerCred node_realm Linux [JsNumber (double_of_Z 3)]
             (boot (failing_kernel EBADF))) = Throw (Error msg) /\
      msg = "getsockopt(SO_PEERCRED) failed") /\
  (exists msg,
      fst (GetPeerCred node_realm Apple [JsNumber (double_of_Z 3)]
             (boot (failing_kernel ENOTSOCK))) = Throw (Error msg) /\
      msg = "getsockopt(LOCAL_PEERCRED) failed").
Proof.
  split.
  - destruct (query_failed_message_is_fixed node_realm Linux (double_of_Z 3) []
                (boot (failing_kernel EBADF)) SOL_SOCKET SO_PEERCRED EBADF
                eq_refl eq_refl) as (msg & Hthrow & _ & Hlinux & _).
    exists msg. split; [exact Hthrow | exact (Hlinux eq_refl)].
  - destruct (query_failed_message_is_fixed node_realm Apple (double_of_Z 3) []
                (boot (failing_kernel ENOTSOCK)) SOL_LOCAL LOCAL_PEERCRED ENOTSOCK
                eq_refl eq_refl) as (msg & Hthrow & _ & _ & Happle).
    exists msg. split; [exact Hthrow | exact (Happle eq_refl)].
Defined.

(** ** The argument check *)

(** C4.  On every platform, a call without a descriptor argument, or with
    one that is not a Number, fails with [InvalidInput] and leaves the
    state as it found it: no query has been issued. *)
Theorem invalid_input_before_any_syscall
    (env : Env) (p : platform) (info : list JsValue) (s : state) :
  info = [] \/ IsNumber (index info 0) = false ->
  exists err,
    fst (GetPeerCred env p info s) = Throw err /\
    failure_kind err = Some InvalidInput /\
    snd (GetPeerCred env p info s) = s /\
    trace (snd (GetPeerCred env p info s)) = trace s.
Proof.
  intros H. rewrite (GetPeerCred_rejected env p info s H).
  eexists. repeat split.
Qed.

Lemma invalid_input_before_any_syscall_witness :
  exists err,
    fst (GetPeerCred node_realm Linux [JsString "3"]
           (boot (linux_kernel 3 peer_4242))) = Throw err /\
    failure_kind err = Some InvalidInput /\
    snd (GetPeerCred node_realm Linux [JsString "3"]
           (boot (linux_kernel 3 peer_4242)))
    = boot (linux_kernel 3 peer_4242) /\
    trace (snd (GetPeerCred node_realm Linux [JsString "3"]
                  (boot (linux_kernel 3 peer_4242))))
    = trace (boot (linux_kernel 3 peer_4242)).
Proof.
  exact (invalid_input_before_any_syscall node_realm Linux [JsString "3"]
           (boot (linux_kernel 3 peer_4242)) (or_intror eq_refl)).
Defined.

Example missing_argument (env : Env) (p : platform) (s : state) :
  GetPeerCred env p [] s = (Throw (TypeError "Expected fd as number"), s).
Proof. reflexivity. Qed.

(** ** The split-credential branch: a failed mandatory query *)

(** C5.  On the split-credential platform, when the [LOCAL_PEERCRED] query
    fails the call fails with [QueryFailed] and returns no record, whatever
    the pid query would have answered: that query is not issued, the trace
    grows by the one mandatory query only. *)
Theorem split_mandatory_failure_is_fatal
    (env : Env) (d : double) (rest : list JsValue) (s : state) (e : Z) :
  kern s (ToInt32 d) SOL_LOCAL LOCAL_PEERCRED = inl e ->
  exists err,
    fst (GetPeerCred env Apple (JsNumber d :: rest) s) = Throw err /\
    failure_kind err = Some QueryFailed /\
    trace (snd (GetPeerCred env Apple (JsNumber d :: rest) s)) =
    trace s ++ [mk_query (ToInt32 d) SOL_LOCAL LOCAL_PEERCRED].
Proof.
  intros He. rewrite GetPeerCred_Apple. cbv zeta. rewrite He.
  eexists. repeat split.
Qed.

Lemma split_mandatory_failure_is_fatal_witness :
  exists err,
    fst (GetPeerCred node_realm Apple [JsNumber (double_of_Z 9)]
           (boot (apple_kernel 7 xpeer_501 (Some 4242)))) = Throw err /\
    failure_kind err = Some QueryFailed /\
    trace (snd (GetPeerCred node_realm Apple [JsNumber (double_of_Z 9)]
                  (boot (apple_kernel 7 xpeer_501 (Some 4242))))) =
    trace (boot (apple_kernel 7 xpeer_501 (Some 4242)))
    ++ [mk_query (ToInt32 (double_of_Z 9)) SOL_LOCAL LOCAL_PEERCRED].
Proof.
  exact (split_mandatory_failure_is_fatal node_realm (double_of_Z 9) []
           (boot (apple_kernel 7 xpeer_501 (Some 4242))) EBADF eq_refl).
Defined.

(** ** The fallback branch *)

(** C6, as claimed, does not hold for every call: the argument check comes
    before the platform branch, so on an unsupported platform a call without
    a descriptor fails with [InvalidInput], not [UnsupportedPlatform]. *)
Lemma unsupported_platform_checks_arguments_first :
  fst (GetPeerCred node_realm Other [] (boot (failing_kernel EBADF))) =
  Throw (TypeError "Expected fd as number") /\
  failure_kind (TypeError "Expected fd as number") = Some InvalidInput /\
  ~ (forall env info s, exists err,
        fst (GetPeerCred env Other info s) = Throw err /\
        failure_kind err = Some UnsupportedPlatform).
Proof.
  repeat split.
  intros H.
  destruct (H node_realm [] (boot (failing_kernel EBADF))) as (err & Hthrow & Hkind).
  cbn in Hthrow. injection Hthrow as <-. discriminate.
Qed.

(** C6, amended.  On a platform other than the two supported ones every
    call fails and issues no query: with [UnsupportedPlatform] when the
    descriptor argument is a Number, with [InvalidInput] when it is absent
    or not a Number. *)
Theorem unsupported_platform_never_queries
    (env : Env) (info : list JsValue) (s : state) :
  snd (GetPeerCred env Other info s) = s /\
  exists err,
    fst (GetPeerCred env Other info s) = Throw err /\
    failure_kind err =
    Some (if IsNumber (index info 0) then UnsupportedPlatform else InvalidInput).
Proof.
  destruct (info_cases info) as [H | (d & rest & ->)].
  - rewrite (GetPeerCred_rejected env Other info s H). split; [reflexivity |].
    eexists. split; [reflexivity |].
    destruct H as [-> | ->]; reflexivity.
  - rewrite GetPeerCred_Other. split; [reflexivity |].
    eexists. split; reflexivity.
Qed.

(** ** The split-credential branch: which group is reported *)

(** C7, as claimed, does not hold in every realm.  After
    [Object.defineProperty(Object.prototype, "gid", { set(v) {} })] the
    object handed back has pid and uid and no gid. *)
Lemma split_gid_lost_when_store_intercepted :
  exists o,
    fst (GetPeerCred (polluted_realm "gid") Apple [JsNumber (double_of_Z 7)]
           (boot (apple_kernel 7 xpeer_501 (Some 4242)))) = Normal (JsObject o) /\
    keys o = ["pid"; "uid"] /\
    GetOwnProperty (own o) "gid" = None.
Proof. eexists. repeat split. Qed.

(** C7, amended.  On the split-credential platform, in a realm whose
    [Object.prototype] does not intercept the stores of pid, uid and gid,
    once the mandatory query has filled the credential structure, the
    record's uid is the structure's [cr_uid] and its gid is the first entry
    of [cr_groups], whatever the other entries, their order and
    [cr_ngroups] are, and whether or not the pid query succeeds. *)
Theorem split_gid_is_head_of_groups
    (env : Env) (d : double) (rest : list JsValue) (s : state)
    (cred : xucred) (g : N) (gs : list N) :
  plain_realm env ->
  kern s (ToInt32 d) SOL_LOCAL LOCAL_PEERCRED = inr cred ->
  cr_groups cred = g :: gs ->
  exists dp du dg,
    fst (GetPeerCred env Apple (JsNumber d :: rest) s) =
    Normal (record_of env dp du dg) /\
    represents du (Z.of_N (cr_uid cred)) /\
    represents dg (Z.of_N g).
Proof.
  intros Hplain Hcred Hgroups. rewrite GetPeerCred_Apple. cbv zeta. rewrite Hcred.
  unfold cr_groups_at. rewrite Hgroups. cbn [nth].
  destruct (kern s (ToInt32 d) SOL_LOCAL LOCAL_PEEREPID) as [e | v];
    cbn [fst]; rewrite (result_of_plain env _ _ _ Hplain);
    do 3 eexists; (split; [reflexivity |]);
    split; apply represents_double_of_Z.
Qed.

Lemma split_gid_is_head_of_groups_witness :
  exists dp du dg,
    fst (GetPeerCred node_realm Apple [JsNumber (double_of_Z 7)]
           (boot (apple_kernel 7 xpeer_501 (Some 4242)))) =
    Normal (record_of node_realm dp du dg) /\
    represents du 501 /\ represents dg 20.
Proof.
  exact (split_gid_is_head_of_groups node_realm (double_of_Z 7) []
           (boot (apple_kernel 7 xpeer_501 (Some 4242)))
           xpeer_501 20%N [12; 61]%N
           (conj eq_refl (conj eq_refl eq_refl)) eq_refl eq_refl).
Defined.

Example apple_scenario :
  fst (GetPeerCred node_realm Apple [JsNumber (double_of_Z 7)]
         (boot (apple_kernel 7 xpeer_501 (Some 4242)))) =
  Normal (record node_realm 4242 501 20).
Proof. reflexivity. Qed.

(** ** Shape of a success *)

(** C8, as claimed, does not hold in every realm.  After
    [Object.defineProperty(Object.prototype, "uid", { set(v) {} })] a call
    succeeds with an object that has two of the three properties. *)
Lemma success_can_be_partial :
  exists o,
    fst (GetPeerCred (polluted_realm "uid") Linux [JsNumber (double_of_Z 5)]
           (boot (linux_kernel 5 peer_4242))) = Normal (JsObject o) /\
    keys o = ["pid"; "gid"].
Proof. eexists. split; reflexivity. Qed.

(** A setter that throws turns an answered query into a failed call: the
    exception of the setter is what the caller gets, and the queries have
    been issued all the same. *)
Example refusing_setter_fails_the_call :
  GetPeerCred (refusing_realm "uid") Linux [JsNumber (double_of_Z 5)]
    (boot (linux_kernel 5 peer_4242)) =
  (Throw (TypeError "read-only record"),
   mk_state (linux_kernel 5 peer_4242) 0 [mk_query 5 SOL_SOCKET SO_PEERCRED]).
Proof. reflexivity. Qed.

(** C8, amended.  In a realm whose [Object.prototype] does not intercept
    the stores of pid, uid and gid, whatever the platform and the
    arguments, a value returned as a success is an object with exactly the
    three properties pid, uid and gid, in this order, each holding a Number
    that is an integer; uid and gid are not negative.  No other object is
    returned. *)
Theorem success_is_a_full_record
    (env : Env) (p : platform) (info : list JsValue) (s : state) (v : JsValue) :
  plain_realm env ->
  fst (GetPeerCred env p info s) = Normal v ->
  exists (dp du dg : double) (pid_ uid_ gid_ : Z),
    v = record_of env dp du dg /\
    represents dp pid_ /\
    represents du uid_ /\
    represents dg gid_ /\
    0 <= uid_ /\ 0 <= gid_.
Proof.
  intros Hplain.
  destruct (info_cases info) as [H | (d & rest & ->)].
  - rewrite (GetPeerCred_rejected env p info s H). discriminate.
  - destruct p.
    + rewrite GetPeerCred_Linux. cbv zeta.
      destruct (kern s (ToInt32 d) SOL_SOCKET SO_PEERCRED) as [e | cred];
        cbn [fst]; [discriminate |].
      rewrite (result_of_plain env _ _ _ Hplain). intros [= <-].
      exists (double_of_Z (pid cred)), (double_of_Z (Z.of_N (uid cred))),
        (double_of_Z (Z.of_N (gid cred))),
        (pid cred), (Z.of_N (uid cred)), (Z.of_N (gid cred)).
      repeat split; try apply represents_double_of_Z; lia.
    + rewrite GetPeerCred_Apple. cbv zeta.
      destruct (kern s (ToInt32 d) SOL_LOCAL LOCAL_PEERCRED) as [e | cred];
        cbn [fst]; [discriminate |].
      destruct (kern s (ToInt32 d) SOL_LOCAL LOCAL_PEEREPID) as [e | v'];
        cbn [fst]; rewrite (result_of_plain env _ _ _ Hplain); intros [= <-].
      * exists (double_of_Z 0), (double_of_Z (Z.of_N (cr_uid cred))),
          (double_of_Z (Z.of_N (cr_groups_at cred 0))),
          0, (Z.of_N (cr_uid cred)), (Z.of_N (cr_groups_at cred 0)).
        repeat split; try apply represents_double_of_Z; lia.
      * exists (double_of_Z v'), (double_of_Z (Z.of_N (cr_uid cred))),
          (double_of_Z (Z.of_N (cr_groups_at cred 0))),
          v', (Z.of_N (cr_uid cred)), (Z.of_N (cr_groups_at cred 0)).
        repeat split; try apply represents_double_of_Z; lia.
    + rewrite GetPeerCred_Other. discriminate.
Qed.

Lemma success_is_a_full_record_witness :
  exists (dp du dg : double) (pid_ uid_ gid_ : Z),
    record node_realm 4242 1000 1000 = record_of node_realm dp du dg /\
    represents dp pid_ /\
    represents du uid_ /\
    represents dg gid_ /\
    0 <= uid_ /\ 0 <= gid_.
Proof.
  exact (success_is_a_full_record node_realm Linux [JsNumber (double_of_Z 5)]
           (boot (linux_kernel 5 peer_4242)) (record node_realm 4242 1000 1000)
           (conj eq_refl (conj eq_refl eq_refl)) eq_refl).
Defined.

(** ** Repeating a call *)

(** The completion of a call is a function of the realm, the arguments and
    the kernel's answers on the descriptor. *)
Lemma completion_depends_on_connection
    (env : Env) (p : platform) (info : list JsValue) (s s' : state) :
  same_connection (Int32Value (index info 0)) s s' ->
  fst (GetPeerCred env p info s') = fst (GetPeerCred env p info s).
Proof.
  unfold same_connection. intros Hsame.
  destruct (info_cases info) as [H | (d & rest & ->)].
  - now rewrite !GetPeerCred_rejected.
  - cbn [index nth Int32Value] in Hsame. destruct p.
    + rewrite !GetPeerCred_Linux. cbv zeta. rewrite Hsame.
      destruct (kern s (ToInt32 d) SOL_SOCKET SO_PEERCRED); reflexivity.
    + rewrite !GetPeerCred_Apple. cbv zeta. rewrite !Hsame.
      destruct (kern s (ToInt32 d) SOL_LOCAL LOCAL_PEERCRED); [reflexivity |].
      destruct (kern s (ToInt32 d) SOL_LOCAL LOCAL_PEEREPID); reflexivity.
    + now rewrite !GetPeerCred_Other.
Qed.



(** The second of two back-to-back calls sees the kernel the first one
    saw, so it completes alike. *)
Corollary successive_calls_agree
    (env : Env) (p : platform) (info : list JsValue) (s : state) :
  fst (GetPeerCred env p info (snd (GetPeerCred env p info s))) =
  fst (GetPeerCred env p info s).
Proof.
  apply completion_depends_on_connection.
  unfold same_connection. now rewrite GetPeerCred_kern.
Qed.

(** ** What the argument check lets through *)

(** C10.  A call whose first argument is a Number, whatever its value,
    passes the argument check: on an unsupported platform it gets as far as
    the fallback branch, on the two supported ones it issues at least one
    query, and in a realm that does not intercept the stores it never fails
    with [InvalidInput].  Conversely only a call with no argument, or with
    a first argument that is not a Number, is turned away by the check.
    The descriptor used is the Number with its fraction dropped, reduced
    modulo 2^32 into the signed 32-bit range (0 for a Number that is not
    finite), and it is the descriptor of every query the call issues. *)
Theorem numeric_descriptor_is_coerced
    (env : Env) (p : platform) (d : double) (rest : list JsValue) (s : state) :
  let out := GetPeerCred env p (JsNumber d :: rest) s in
  let fd := Int32Value (index (JsNumber d :: rest) 0) in
  (p = Other -> fst out = Throw (Error "Unsupported platform")) /\
  (plain_realm env ->
   forall err, fst out = Throw err -> failure_kind err <> Some InvalidInput) /\
  (forall info s',
      GetPeerCred env p info s' = (Throw (TypeError "Expected fd as number"), s') ->
      info = [] \/ IsNumber (index info 0) = false) /\
  (exists t k, integer_part d t /\ fd = t + k * 2 ^ 32) /\
  - 2 ^ 31 <= fd < 2 ^ 31 /\
  exists qs,
    trace (snd out) = trace s ++ qs /\
    Forall (fun q => q_fd q = fd) qs /\
    (p <> Other -> qs <> []).
Proof.
  cbv zeta. cbn [index nth Int32Value].
  split.
  { intros ->. now rewrite GetPeerCred_Other. }
  split.
  { intros Hplain err. destruct p.
    - rewrite GetPeerCred_Linux. cbv zeta.
      destruct (kern s (ToInt32 d) SOL_SOCKET SO_PEERCRED); cbn [fst].
      + intros [= <-]. discriminate.
      + rewrite (result_of_plain env _ _ _ Hplain). discriminate.
    - rewrite GetPeerCred_Apple. cbv zeta.
      destruct (kern s (ToInt32 d) SOL_LOCAL LOCAL_PEERCRED);
        [cbn [fst]; intros [= <-]; discriminate |].
      destruct (kern s (ToInt32 d) SOL_LOCAL LOCAL_PEEREPID);
        cbn [fst]; rewrite (result_of_plain env _ _ _ Hplain); discriminate.
    - rewrite GetPeerCred_Other. cbn [fst]. intros [= <-]. discriminate. }
  split.
  { intros info s' Hrejected.
    destruct (info_cases info) as [H | (d' & rest' & ->)]; [exact H |].
    exfalso. destruct p.
    - rewrite GetPeerCred_Linux in Hrejected. cbv zeta in Hrejected.
      apply (f_equal (fun out => trace (snd out))) in Hrejected.
      destruct (kern s' (ToInt32 d') SOL_SOCKET SO_PEERCRED);
        cbn [snd trace] in Hrejected; exact (app_cons_not_self _ _ _ Hrejected).
    - rewrite GetPeerCred_Apple in Hrejected. cbv zeta in Hrejected.
      apply (f_equal (fun out => trace (snd out))) in Hrejected.
      destruct (kern s' (ToInt32 d') SOL_LOCAL LOCAL_PEERCRED);
        [cbn [snd trace] in Hrejected; exact (app_cons_not_self _ _ _ Hrejected) |].
      destruct (kern s' (ToInt32 d') SOL_LOCAL LOCAL_PEEREPID);
        cbn [snd trace] in Hrejected; rewrite <- app_assoc in Hrejected;
        exact (app_cons_not_self _ _ _ Hrejected).
    - rewrite GetPeerCred_Other in Hrejected. discriminate. }
  split.
  { destruct (wrap_int32_congruent (trunc d)) as [k Hk].
    exists (trunc d), k. split; [apply integer_part_trunc | exact Hk]. }
  split; [apply wrap_int32_range |].
  destruct p.
  - rewrite GetPeerCred_Linux. cbv zeta.
    exists [mk_query (ToInt32 d) SOL_SOCKET SO_PEERCRED].
    split; [| split; [repeat constructor | discriminate]].
    destruct (kern s (ToInt32 d) SOL_SOCKET SO_PEERCRED); reflexivity.
  - rewrite GetPeerCred_Apple. cbv zeta.
    destruct (kern s (ToInt32 d) SOL_LOCAL LOCAL_PEERCRED).
    + exists [mk_query (ToInt32 d) SOL_LOCAL LOCAL_PEERCRED].
      split; [reflexivity | split; [repeat constructor | discriminate]].
    + exists [mk_query (ToInt32 d) SOL_LOCAL LOCAL_PEERCRED;
              mk_query (ToInt32 d) SOL_LOCAL LOCAL_PEEREPID].
      split; [| split; [repeat constructor | discriminate]].
      destruct (kern s (ToInt32 d) SOL_LOCAL LOCAL_PEEREPID);
        cbn [snd trace]; now rewrite <- app_assoc.
  - rewrite GetPeerCred_Other. exists []. cbn [snd].
    split; [now rewrite app_nil_r | split; [constructor | congruence]].
Qed.

(** The call with 3.7 on Linux: the theorem leaves no descriptor but 3. *)
Lemma numeric_descriptor_is_coerced_witness :
  let out := GetPeerCred node_realm Linux [JsNumber double_3_7]
               (boot (linux_kernel 3 peer_4242)) in
  Int32Value (index [JsNumber double_3_7] 0) = 3 /\
  (forall err, fst out = Throw err -> failure_kind err <> Some InvalidInput) /\
  exists q qs, trace (snd out) = q :: qs /\ q_fd q = 3.
Proof.
  pose proof (numeric_descriptor_is_coerced node_realm Linux double_3_7 []
                (boot (linux_kernel 3 peer_4242))) as H.
  cbv zeta in H.
  destruct H as (_ & Hpass & _ & (t & k & Hint & Hfd) & Hrange &
                 (qs & Htrace & Hall & Hsome)).
  assert (Hthree : Int32Value (index [JsNumber double_3_7] 0) = 3).
  { unfold integer_part, double_3_7 in Hint.
    change (Z.max 0 (- -51)) with 51 in Hint.
    change (Z.max 0 (-51)) with 0 in Hint.
    change (2 ^ 51) with 2251799813685248 in Hint.
    change (2 ^ 0) with 1 in Hint.
    change (2 ^ 32) with 4294967296 in Hfd.
    change (2 ^ 31) with 2147483648 in Hrange.
    lia. }
  cbv zeta. split; [exact Hthree |].
  split; [exact (Hpass (conj eq_refl (conj eq_refl eq_refl))) |].
  destruct qs as [| q qs]; [exfalso; apply Hsome; [discriminate | reflexivity] |].
  exists q, qs. split; [exact Htrace |].
  rewrite <- Hthree. now inversion Hall.
Defined.

(** 3.7 is accepted and resolves the socket behind descriptor 3. *)
Example fractional_descriptor :
  GetPeerCred node_realm Linux [JsNumber double_3_7]
    (boot (linux_kernel 3 peer_4242)) =
  (Normal (record node_realm 4242 1000 1000),
   mk_state (linux_kernel 3 peer_4242) 0 [mk_query 3 SOL_SOCKET SO_PEERCRED]).
Proof. reflexivity. Qed.

(** NaN is accepted and queries descriptor 0. *)
Example nan_descriptor :
  GetPeerCred node_realm Linux [JsNumber S754_nan]
    (boot (linux_kernel 3 peer_4242)) =
  (Throw (Error "getsockopt(SO_PEERCRED) failed"),
   mk_state (linux_kernel 3 peer_4242) EBADF [mk_query 0 SOL_SOCKET SO_PEERCRED]).
Proof. reflexivity. Qed.

(** A negative number is accepted and passed on as it is. *)
Example negative_descriptor :
  GetPeerCred node_realm Linux [JsNumber (double_of_Z (-5))]
    (boot (linux_kernel 3 peer_4242)) =
  (Throw (Error "getsockopt(SO_PEERCRED) failed"),
   mk_state (linux_kernel 3 peer_4242) EBADF [mk_query (-5) SOL_SOCKET SO_PEERCRED]).
Proof. reflexivity. Qed.

(** * Further properties of the entry points *)

(** ** Which part of the arguments is read *)

(** Only the first argument is looked at: two calls whose argument lists
    start with the same value behave alike, whatever follows. *)
Theorem extra_arguments_are_ignored
    (env : Env) (p : platform) (v : JsValue) (rest rest' : list JsValue)
    (s : state) :
  GetPeerCred env p (v :: rest) s = GetPeerCred env p (v :: rest') s.
Proof.
  unfold GetPeerCred. rewrite !Length_cons. reflexivity.
Qed.

(** Two Numbers that coerce to the same 32-bit integer name the same
    descriptor: result and final state of the two calls are equal.  So a
    Number is read modulo 2^32 after its fraction is dropped. *)
Theorem descriptor_is_read_after_coercion
    (env : Env) (p : platform) (d1 d2 : double) (rest : list JsValue) (s : state) :
  ToInt32 d1 = ToInt32 d2 ->
  GetPeerCred env p (JsNumber d1 :: rest) s =
  GetPeerCred env p (JsNumber d2 :: rest) s.
Proof.
  intros Hfd. destruct p.
  - rewrite !GetPeerCred_Linux. now rewrite Hfd.
  - rewrite !GetPeerCred_Apple. now rewrite Hfd.
  - now rewrite !GetPeerCred_Other.
Qed.

Lemma descriptor_is_read_after_coercion_witness :
  GetPeerCred node_realm Linux [JsNumber (double_of_Z (2 ^ 32 + 3))]
    (boot (linux_kernel 3 peer_4242)) =
  GetPeerCred node_realm Linux [JsNumber double_3_7]
    (boot (linux_kernel 3 peer_4242)).
Proof.
  exact (descriptor_is_read_after_coercion node_realm Linux
           (double_of_Z (2 ^ 32 + 3)) double_3_7 []
           (boot (linux_kernel 3 peer_4242)) eq_refl).
Defined.

(** ** The split-credential branch when both queries are answered *)

(** In a realm that does not intercept the stores, when the kernel answers
    both [LOCAL_PEERCRED] and [LOCAL_PEEREPID], the record's pid is the
    answer of the second query and uid and gid come from the structure of
    the first.  In any realm the call has issued exactly these two queries,
    the mandatory one first. *)
Theorem split_full_success
    (env : Env) (d : double) (rest : list JsValue) (s : state)
    (cred : xucred) (v : Z) :
  kern s (ToInt32 d) SOL_LOCAL LOCAL_PEERCRED = inr cred ->
  kern s (ToInt32 d) SOL_LOCAL LOCAL_PEEREPID = inr v ->
  trace (snd (GetPeerCred env Apple (JsNumber d :: rest) s)) =
  trace s ++ [mk_query (ToInt32 d) SOL_LOCAL LOCAL_PEERCRED;
              mk_query (ToInt32 d) SOL_LOCAL LOCAL_PEEREPID] /\
  (plain_realm env ->
   exists dp du dg,
     fst (GetPeerCred env Apple (JsNumber d :: rest) s) =
     Normal (record_of env dp du dg) /\
     represents dp v /\
     represents du (Z.of_N (cr_uid cred)) /\
     represents dg (Z.of_N (cr_groups_at cred 0))).
Proof.
  intros Hcred Hpid. rewrite GetPeerCred_Apple. cbv zeta.
  rewrite Hcred, Hpid. cbn [fst snd trace]. split.
  - now rewrite <- app_assoc.
  - intros Hplain. rewrite (result_of_plain env _ _ _ Hplain).
    do 3 eexists. split; [reflexivity |].
    repeat split; apply represents_double_of_Z.
Qed.

Lemma split_full_success_witness :
  trace (snd (GetPeerCred node_realm Apple [JsNumber (double_of_Z 7)]
                (boot (apple_kernel 7 xpeer_501 (Some 4242))))) =
  [] ++ [mk_query 7 SOL_LOCAL LOCAL_PEERCRED;
         mk_query 7 SOL_LOCAL LOCAL_PEEREPID] /\
  exists dp du dg,
    fst (GetPeerCred node_realm Apple [JsNumber (double_of_Z 7)]
           (boot (apple_kernel 7 xpeer_501 (Some 4242)))) =
    Normal (record_of node_realm dp du dg) /\
    represents dp 4242 /\ represents du 501 /\ represents dg 20.
Proof.
  destruct (split_full_success node_realm (double_of_Z 7) []
              (boot (apple_kernel 7 xpeer_501 (Some 4242)))
              xpeer_501 4242 eq_refl eq_refl) as [Htrace Hrecord].
  split; [exact Htrace |].
  exact (Hrecord (conj eq_refl (conj eq_refl eq_refl))).
Defined.

(** ** When a call succeeds *)

(** A call returns a value only if its first argument is a Number and the
    kernel answers the platform's mandatory query on the coerced
    descriptor; in a realm that does not intercept the stores the converse
    holds too.  In particular no call succeeds on an unsupported platform,
    and the answer to the pid query never decides success. *)
Theorem success_iff_mandatory_query_answered
    (env : Env) (p : platform) (info : list JsValue) (s : state) :
  ((exists v, fst (GetPeerCred env p info s) = Normal v) ->
   exists d rest lvl o (c : optval o),
     info = JsNumber d :: rest /\
     mandatory_query p = Some (lvl, o) /\
     kern s (ToInt32 d) lvl o = inr c) /\
  (plain_realm env ->
   (exists d rest lvl o (c : optval o),
       info = JsNumber d :: rest /\
       mandatory_query p = Some (lvl, o) /\
       kern s (ToInt32 d) lvl o = inr c) ->
   exists v, fst (GetPeerCred env p info s) = Normal v).
Proof.
  split.
  - intros [v Hv].
    destruct (info_cases info) as [H | (d & rest & ->)].
    + rewrite (GetPeerCred_rejected env p info s H) in Hv. discriminate.
    + destruct p.
      * rewrite GetPeerCred_Linux in Hv. cbv zeta in Hv.
        destruct (kern s (ToInt32 d) SOL_SOCKET SO_PEERCRED) as [e | c] eqn:E;
          [discriminate |].
        exists d, rest, SOL_SOCKET, SO_PEERCRED, c. auto.
      * rewrite GetPeerCred_Apple in Hv. cbv zeta in Hv.
        destruct (kern s (ToInt32 d) SOL_LOCAL LOCAL_PEERCRED) as [e | c] eqn:E;
          [discriminate |].
        exists d, rest, SOL_LOCAL, LOCAL_PEERCRED, c. auto.
      * rewrite GetPeerCred_Other in Hv. discriminate.
  - intros Hplain (d & rest & lvl & o & c & -> & Hq & Hc).
    destruct p; inversion Hq; subst; clear Hq.
    + rewrite GetPeerCred_Linux. cbv zeta. rewrite Hc. cbn [fst].
      rewrite (result_of_plain env _ _ _ Hplain). eexists. reflexivity.
    + rewrite GetPeerCred_Apple. cbv zeta. rewrite Hc.
      destruct (kern s (ToInt32 d) SOL_LOCAL LOCAL_PEEREPID);
        cbn [fst]; rewrite (result_of_plain env _ _ _ Hplain);
        eexists; reflexivity.
Qed.

Lemma success_iff_mandatory_query_answered_witness :
  exists v,
    fst (GetPeerCred node_realm Apple [JsNumber (double_of_Z 7)]
           (boot (apple_kernel 7 xpeer_501 None))) = Normal v.
Proof.
  apply (proj2 (success_iff_mandatory_query_answered node_realm Apple
                  [JsNumber (double_of_Z 7)]
                  (boot (apple_kernel 7 xpeer_501 None)))).
  - repeat split.
  - exists (double_of_Z 7), [], SOL_LOCAL, LOCAL_PEERCRED, xpeer_501.
    repeat split.
Defined.

(** ** Which queries a call can issue *)

(** Whatever the arguments and the kernel's answers, a call keeps the
    queries already in the trace and appends at most one query on Linux, at
    most two on macOS and none elsewhere; each appended query is on the
    coerced descriptor and asks only for an option of the platform's own
    branch. *)
Theorem queries_of_a_call
    (env : Env) (p : platform) (info : list JsValue) (s : state) :
  exists qs,
    trace (snd (GetPeerCred env p info s)) = trace s ++ qs /\
    (List.length qs <= max_queries p)%nat /\
    Forall (fun q => q_fd q = Int32Value (index info 0) /\ may_query p q) qs.
Proof.
  destruct (info_cases info) as [H | (d & rest & ->)].
  - rewrite (GetPeerCred_rejected env p info s H). exists []. cbn [snd].
    rewrite app_nil_r. repeat split; [cbn; lia | constructor].
  - cbn [index nth Int32Value]. destruct p.
    + rewrite GetPeerCred_Linux. cbv zeta.
      exists [mk_query (ToInt32 d) SOL_SOCKET SO_PEERCRED].
      split; [| split; [cbn; lia | repeat constructor]].
      destruct (kern s (ToInt32 d) SOL_SOCKET SO_PEERCRED); reflexivity.
    + rewrite GetPeerCred_Apple. cbv zeta.
      destruct (kern s (ToInt32 d) SOL_LOCAL LOCAL_PEERCRED).
      * exists [mk_query (ToInt32 d) SOL_LOCAL LOCAL_PEERCRED].
        split; [reflexivity | split; [cbn; lia |]].
        constructor; [cbn; auto | constructor].
      * exists [mk_query (ToInt32 d) SOL_LOCAL LOCAL_PEERCRED;
                mk_query (ToInt32 d) SOL_LOCAL LOCAL_PEEREPID].
        split; [| split; [cbn; lia |]].
        -- destruct (kern s (ToInt32 d) SOL_LOCAL LOCAL_PEEREPID);
             cbn [snd trace]; now rewrite <- app_assoc.
        -- constructor; [cbn; auto | constructor; [cbn; auto | constructor]].
    + rewrite GetPeerCred_Other. exists []. cbn [snd].
      rewrite app_nil_r. repeat split; [cbn; lia | constructor].
Qed.

(** ** Which exceptions a call can raise *)

(** In a realm that does not intercept the stores, a call that fails raises
    one of two exceptions per platform: the [TypeError] of the argument
    check, or the platform's own [Error].  No exception is raised for the
    pid query. *)
Theorem exceptions_of_a_call
    (env : Env) (p : platform) (info : list JsValue) (s : state) (e : JsError) :
  plain_realm env ->
  fst (GetPeerCred env p info s) = Throw e ->
  e = TypeError "Expected fd as number" \/
  e = Error match p with
            | Linux => "getsockopt(SO_PEERCRED) failed"
            | Apple => "getsockopt(LOCAL_PEERCRED) failed"
            | Other => "Unsupported platform"
            end.
Proof.
  intros Hplain.
  destruct (info_cases info) as [H | (d & rest & ->)].
  - rewrite (GetPeerCred_rejected env p info s H). intros [= <-]. now left.
  - intros He. right. destruct p.
    + rewrite GetPeerCred_Linux in He. cbv zeta in He.
      destruct (kern s (ToInt32 d) SOL_SOCKET SO_PEERCRED);
        cbn [fst] in He; [now inversion He |].
      rewrite (result_of_plain env _ _ _ Hplain) in He. discriminate.
    + rewrite GetPeerCred_Apple in He. cbv zeta in He.
      destruct (kern s (ToInt32 d) SOL_LOCAL LOCAL_PEERCRED);
        [cbn [fst] in He; now inversion He |].
      destruct (kern s (ToInt32 d) SOL_LOCAL LOCAL_PEEREPID);
        cbn [fst] in He; rewrite (result_of_plain env _ _ _ Hplain) in He;
        discriminate.
    + rewrite GetPeerCred_Other in He. now inversion He.
Qed.

Lemma exceptions_of_a_call_witness :
  Error "getsockopt(LOCAL_PEERCRED) failed" = TypeError "Expected fd as number" \/
  Error "getsockopt(LOCAL_PEERCRED) failed" = Error "getsockopt(LOCAL_PEERCRED) failed".
Proof.
  exact (exceptions_of_a_call node_realm Apple [JsNumber (double_of_Z 9)]
           (boot (apple_kernel 7 xpeer_501 (Some 4242)))
           (Error "getsockopt(LOCAL_PEERCRED) failed")
           (conj eq_refl (conj eq_refl eq_refl)) eq_refl).
Defined.

(** ** Registering the addon *)

(** When the assignment to getPeerCred is allowed -- no setter, accessor or
    read-only property is found under that key on the exports object or
    along its prototype chain, and the object has the key already or is
    extensible -- [Init] raises nothing and leaves the wrapped
    [GetPeerCred] as a writable own property under getPeerCred; every other
    own property, the extensibility and the prototype chain stay as they
    were. *)
Theorem Init_exports_getPeerCred (env : Env) (exports : Object) :
  let found := FindProperty (own exports :: prototypes exports) "getPeerCred" in
  (found = None \/ exists w, found = Some (Data w true)) ->
  (GetOwnProperty (own exports) "getPeerCred" <> None \/ extensible exports = true) ->
  exists exports',
    Init env (exports, None) = (exports', None) /\
    GetOwnProperty (own exports') "getPeerCred" =
    Some (Data (JsFunction "GetPeerCred") true) /\
    (forall k, k <> "getPeerCred" ->
               GetOwnProperty (own exports') k = GetOwnProperty (own exports) k) /\
    extensible exports' = extensible exports /\
    prototypes exports' = prototypes exports.
Proof.
  cbv zeta. unfold Init, Set_. cbn [fst snd]. unfold OrdinarySet. cbn [FindProperty].
  destruct (GetOwnProperty (own exports) "getPeerCred") as [d |] eqn:Eown.
  - intros [Hnone | [w [= ->]]] _; [discriminate |].
    eexists. split; [reflexivity |]. cbn [own extensible prototypes].
    split; [now apply Get_SetValue_same with (w := w) |].
    split; [| split; reflexivity].
    intros k Hk. now apply Get_SetValue_other.
  - intros Hfound [Hown | Hext]; [congruence |]. rewrite Hext.
    assert (Hnew : forall k,
               GetOwnProperty
                 (own exports ++ [("getPeerCred", Data (Function_New "GetPeerCred") true)]) k
               = if String.eqb "getPeerCred" k
                 then Some (Data (Function_New "GetPeerCred") true)
                 else GetOwnProperty (own exports) k)
      by (intros k; now apply Get_app_new).
    destruct Hfound as [-> | [w ->]];
      (eexists; split; [reflexivity |]; cbn [own extensible prototypes];
       split; [now rewrite Hnew |];
       split; [| split; reflexivity];
       intros k Hk; rewrite Hnew;
       assert (E : String.eqb "getPeerCred" k = false)
         by (apply String.eqb_neq; congruence);
       now rewrite E).
Qed.

Lemma Init_exports_getPeerCred_witness :
  exists exports',
    Init node_realm (plain_exports, None) = (exports', None) /\
    GetOwnProperty (own exports') "getPeerCred" =
    Some (Data (JsFunction "GetPeerCred") true) /\
    GetOwnProperty (own exports') "version" =
    GetOwnProperty (own plain_exports) "version".
Proof.
  destruct (Init_exports_getPeerCred node_realm plain_exports
              (or_introl eq_refl) (or_intror eq_refl))
    as (exports' & Hinit & Hfn & Hrest & _).
  exists exports'. split; [exact Hinit |]. split; [exact Hfn |].
  apply Hrest. discriminate.
Defined.

(** [Init] does not force the export.  When the assignment finds a
    read-only property or an accessor without setter under getPeerCred, on
    the exports object or along its prototype chain, or when the object
    lacks the key and is not extensible, [Init] hands the exports object
    back unchanged and raises nothing. *)
Theorem Init_leaves_protected_exports (env : Env) (exports : Object) :
  let found := FindProperty (own exports :: prototypes exports) "getPeerCred" in
  (exists w, found = Some (Data w false)) \/
  found = Some (Accessor None) \/
  ((found = None \/ exists w, found = Some (Data w true)) /\
   GetOwnProperty (own exports) "getPeerCred" = None /\
   extensible exports = false) ->
  Init env (exports, None) = (exports, None).
Proof.
  cbv zeta. unfold Init, Set_. cbn [fst snd]. unfold OrdinarySet.
  intros [[w ->] | [-> | (Hfound & Hown & Hext)]]; try reflexivity.
  rewrite Hown, Hext. destruct Hfound as [-> | [w ->]]; reflexivity.
Qed.

Lemma Init_leaves_protected_exports_witness :
  Init node_realm (locked_exports, None) = (locked_exports, None).
Proof.
  exact (Init_leaves_protected_exports node_realm locked_exports
           (or_introl (ex_intro _ JsNull eq_refl))).
Defined.

(** Loaded in a fresh realm, the addon exports getPeerCred and nothing
    else. *)
Example peer_cred_exports :
  peer_cred node_realm =
  (mk_Obj [("getPeerCred", Data (JsFunction "GetPeerCred") true)]
          true [Object_prototype node_realm], None).
Proof. reflexivity. Qed.
